(** * RapidReader, [explore_epub.py]: the EPUB archive explorer

    A shallow embedding of the script [src/explore_epub.py] and the proofs of
    the properties its specification states.

    The script is forty lines of Python over two library modules, [zipfile]
    and [os].  What the libraries do is the environment of the program: the
    file system is a map from paths to nodes, an archive is a name list with
    a member table, and the standard output is the stream of characters
    written so far, behind an encoder that may refuse a text.  The program
    itself ([explore_epub] and the module's top level) is translated
    statement by statement into a monad of state and exceptions. *)

From Stdlib Require Import List ZArith Lia Bool.
From Stdlib Require Import Strings.Ascii Strings.Byte.
From Stdlib Require Strings.String.
Import String.StringSyntax.
From Stdlib Require Import Numbers.DecimalString.
Import ListNotations.

Local Open Scope string_scope.
Local Open Scope list_scope.
Local Open Scope Z_scope.

(** ** Python values *)

Module Py.

(** A Python [str] is a sequence of Unicode code points; [len] counts code
    points and slicing cuts between them. *)
Definition str := list Z.

(** A Python [bytes] object. *)
Definition bytes := list byte.

(** An ASCII literal of the source as a [str]. *)
Definition lit (s : String.string) : str :=
  map (fun a => Z.of_N (N_of_ascii a)) (String.list_ascii_of_string s).

(** [len(s)]. *)
Definition len (s : str) : nat := List.length s.

(** [s[:n]]: the first [n] code points, the whole string when it is shorter. *)
Definition slice_to (n : nat) (s : str) : str := firstn n s.

(** [s * n]: [n] copies of [s], one after the other. *)
Fixpoint str_mul (s : str) (n : nat) : str :=
  match n with
  | O => []
  | S n' => s ++ str_mul s n'
  end.

(** The line terminator [print] writes after its argument. *)
Definition newline : str := [10].

(** The exception classes the program tells apart.  All of them derive from
    [Exception]; [OtherException] stands for every class that is neither of
    the three named ones ([KeyError], [RuntimeError], [NotImplementedError],
    [zlib.error], [IsADirectoryError], [PermissionError], ...).  What is
    raised from outside the program's own calls and does not derive from
    [Exception] (a keyboard interrupt) has no place in this type. *)
Inductive exn_class :=
| FileNotFoundError
| BadZipFile
| UnicodeDecodeError
| OtherException.

(** An exception object: its class and [str(e)]. *)
Record exn := MkExn { exn_cls : exn_class; exn_str : str }.

(** The class named in an [except] clause. *)
Inductive except_clause :=
| ExceptFileNotFoundError
| ExceptBadZipFile
| ExceptException.

(** [isinstance(e, C)] for the class [C] of an [except] clause. *)
Definition isinstance (e : exn) (c : except_clause) : bool :=
  match c, exn_cls e with
  | ExceptException, _ => true
  | ExceptFileNotFoundError, FileNotFoundError => true
  | ExceptBadZipFile, BadZipFile => true
  | _, _ => false
  end.

(** How a statement ends: normally with a value, or with an exception on its
    way to the nearest enclosing handler. *)
Inductive outcome (A : Type) :=
| Return (a : A)
| Raise (e : exn).
Arguments Return {A} a.
Arguments Raise {A} e.

End Py.

Import Py.

(** ** [bytes.decode('utf-8', errors)]

    The decoder of CPython ([utf8_decode] in [Objects/stringlib/codecs.h],
    driven by [unicode_decode_utf8]) reads the input from left to right.  At
    each position it either decodes one well-formed sequence of one to four
    bytes, or reports an error over a span of bytes and hands the span to the
    error handler named by [errors]; decoding resumes after the span. *)

Module Utf8.

Definition byte_val (b : byte) : Z := Z.of_N (Byte.to_N b).

(** [IS_CONTINUATION_BYTE(ch)]: [ch >= 0x80 && ch < 0xC0]. *)
Definition is_continuation_byte (ch : Z) : bool :=
  (0x80 <=? ch) && (ch <? 0xC0).

Inductive reason :=
| InvalidStart          (* "invalid start byte" *)
| InvalidContinuation   (* "invalid continuation byte" *)
| UnexpectedEnd.        (* "unexpected end of data" *)

(** What the decoder finds at one position: a code point, or an error whose
    span is the bytes [skipped]. *)
Inductive item :=
| Scalar (c : Z)
| Malformed (r : reason) (skipped : bytes).

(** The scan.  [InvalidStart] spans the one offending byte;
    [InvalidContinuation] spans the lead byte and the continuation bytes
    accepted so far, and the scan resumes AT the byte that was refused;
    [UnexpectedEnd] spans everything up to the end of the input. *)
Fixpoint scan (s : bytes) : list item :=
  match s with
  | [] => []
  | b1 :: s1 =>
    let ch := byte_val b1 in
    if ch <? 0x80 then
      Scalar ch :: scan s1
    else if ch <? 0xE0 then
      (* \xC2\x80-\xDF\xBF -- 0080-07FF *)
      if ch <? 0xC2 then Malformed InvalidStart [b1] :: scan s1
      else
        match s1 with
        | [] => [Malformed UnexpectedEnd [b1]]
        | b2 :: s2 =>
          let ch2 := byte_val b2 in
          if negb (is_continuation_byte ch2) then
            Malformed InvalidContinuation [b1] :: scan s1
          else
            Scalar (Z.shiftl ch 6 + ch2 - (Z.shiftl 0xC0 6 + 0x80)) :: scan s2
        end
    else if ch <? 0xF0 then
      (* \xE0\xA0\x80-\xEF\xBF\xBF -- 0800-FFFF *)
      match s1 with
      | [] => [Malformed UnexpectedEnd [b1]]
      | b2 :: s2 =>
        let ch2 := byte_val b2 in
        if negb (is_continuation_byte ch2)
           || (if ch2 <? 0xA0 then ch =? 0xE0 else ch =? 0xED)
        then Malformed InvalidContinuation [b1] :: scan s1
        else
          match s2 with
          | [] => [Malformed UnexpectedEnd [b1; b2]]
          | b3 :: s3 =>
            let ch3 := byte_val b3 in
            if negb (is_continuation_byte ch3) then
              Malformed InvalidContinuation [b1; b2] :: scan s2
            else
              Scalar (Z.shiftl ch 12 + Z.shiftl ch2 6 + ch3
                      - (Z.shiftl 0xE0 12 + Z.shiftl 0x80 6 + 0x80))
              :: scan s3
          end
      end
    else if ch <? 0xF5 then
      (* \xF0\x90\x80\x80-\xF4\x8F\xBF\xBF -- 10000-10FFFF *)
      match s1 with
      | [] => [Malformed UnexpectedEnd [b1]]
      | b2 :: s2 =>
        let ch2 := byte_val b2 in
        if negb (is_continuation_byte ch2)
           || (if ch2 <? 0x90 then ch =? 0xF0 else ch =? 0xF4)
        then Malformed InvalidContinuation [b1] :: scan s1
        else
          match s2 with
          | [] => [Malformed UnexpectedEnd [b1; b2]]
          | b3 :: s3 =>
            let ch3 := byte_val b3 in
            if negb (is_continuation_byte ch3) then
              Malformed InvalidContinuation [b1; b2] :: scan s2
            else
              match s3 with
              | [] => [Malformed UnexpectedEnd [b1; b2; b3]]
              | b4 :: s4 =>
                let ch4 := byte_val b4 in
                if negb (is_continuation_byte ch4) then
                  Malformed InvalidContinuation [b1; b2; b3] :: scan s3
                else
                  Scalar (Z.shiftl ch 18 + Z.shiftl ch2 12 + Z.shiftl ch3 6 + ch4
                          - (Z.shiftl 0xF0 18 + Z.shiftl 0x80 12
                             + Z.shiftl 0x80 6 + 0x80))
                  :: scan s4
              end
          end
      end
    else Malformed InvalidStart [b1] :: scan s1
  end.

(** The text of a reason, as [UnicodeDecodeError] shows it. *)
Definition reason_text (r : reason) : str :=
  match r with
  | InvalidStart => lit "invalid start byte"
  | InvalidContinuation => lit "invalid continuation byte"
  | UnexpectedEnd => lit "unexpected end of data"
  end.

(** [%zd] and [0x%02x] of the message. *)
Definition decimal (n : nat) : str :=
  lit (NilZero.string_of_uint (Nat.to_uint n)).

Definition hex_digit (n : Z) : Z :=
  if n <? 10 then 48 + n else 87 + n.

Definition hex2 (b : byte) : str :=
  [hex_digit (byte_val b / 16); hex_digit (byte_val b mod 16)].

(** [str(e)] of the [UnicodeDecodeError] raised for an error that starts at
    byte offset [start]. *)
Definition decode_error (start : nat) (r : reason) (skipped : bytes) : exn :=
  MkExn UnicodeDecodeError
    (lit "'utf-8' codec can't decode "
     ++ match skipped with
        | [b] => lit "byte 0x" ++ hex2 b ++ lit " in position " ++ decimal start
        | _ => lit "bytes in position " ++ decimal start ++ lit "-"
               ++ decimal (start + List.length skipped - 1)
        end
     ++ lit ": " ++ reason_text r).

(** The number of bytes a decoded code point was read from. *)
Definition scalar_width (c : Z) : nat :=
  if c <? 0x80 then 1 else if c <? 0x800 then 2
  else if c <? 0x10000 then 3 else 4.

(** The three standard values of the [errors] argument. *)
Inductive errors :=
| strict     (* raise UnicodeDecodeError *)
| ignore     (* drop the malformed bytes *)
| replace.   (* put U+FFFD in their place *)

Definition replacement_character : Z := 0xFFFD.

(** The error handler applied along the scan; [start] is the byte offset of
    the first item. *)
Fixpoint handle (e : errors) (start : nat) (items : list item) : outcome str :=
  match items with
  | [] => Return []
  | Scalar c :: rest =>
    match handle e (start + scalar_width c) rest with
    | Return text => Return (c :: text)
    | Raise x => Raise x
    end
  | Malformed r skipped :: rest =>
    match e with
    | strict => Raise (decode_error start r skipped)
    | ignore => handle e (start + List.length skipped) rest
    | replace =>
      match handle e (start + List.length skipped) rest with
      | Return text => Return (replacement_character :: text)
      | Raise x => Raise x
      end
    end
  end.

(** [s.decode('utf-8', errors=e)]. *)
Definition bytes_decode (s : bytes) (e : errors) : outcome str :=
  handle e 0 (scan s).

End Utf8.

(** ** The environment: file system, archives, standard output *)

Module Env.

(** What [ZipFile.open(name)] followed by [read()] finds for a member name:
    [open] raises, or the member opens and [read] raises (a bad CRC, a
    truncated or corrupt stream), or [read] returns the member's bytes. *)
Inductive member :=
| OpenFails (e : exn)
| ReadFails (e : exn)
| Payload (data : bytes).

(** An open archive as the program sees it: the names of the central
    directory in their order (duplicates allowed), and what opening and
    reading a name gives. *)
Record ZipFile := MkZipFile {
  zf_namelist : list str;
  zf_member : str -> member
}.

(** What a path leads to. *)
Inductive node :=
| Absent                 (* no file of that name: opening raises
                            FileNotFoundError *)
| Unopenable (seen : bool) (msg : str)
                         (* a directory, a file without read permission, a
                            path through a file or under a directory that
                            cannot be searched, a file whose central
                            directory zipfile gives up on with another
                            exception, ...: [ZipFile] raises an exception
                            other than FileNotFoundError and BadZipFile,
                            with this text; [seen] is what os.path.exists
                            answers *)
| NotZip                 (* a readable file in which zipfile finds no ZIP
                            archive: [ZipFile] raises BadZipFile *)
| Archive (z : ZipFile). (* a readable ZIP archive *)

(** Whether [os.path.exists] finds the node. *)
Definition node_exists (n : node) : bool :=
  match n with
  | Absent => false
  | Unopenable seen _ => seen
  | NotZip => true
  | Archive _ => true
  end.

Record World := MkWorld {
  fs : str -> node;
  stdout : str
}.

End Env.

Import Env.

(** ** Statements: state and exceptions

    A statement runs in a world and ends in a world; what it wrote before an
    exception left it stays written. *)

Module Stmt.

Definition M (A : Type) : Type := World -> outcome A * World.

Definition ret {A} (a : A) : M A := fun w => (Return a, w).

Definition raise {A} (e : exn) : M A := fun w => (Raise e, w).

Definition bind {A B} (m : M A) (k : A -> M B) : M B :=
  fun w =>
    match m w with
    | (Return a, w1) => k a w1
    | (Raise e, w1) => (Raise e, w1)
    end.

Definition lift {A} (o : outcome A) : M A := fun w => (o, w).

Declare Scope stmt_scope.
Delimit Scope stmt_scope with stmt.
Notation "x <- m ;; k" := (bind m (fun x => k))
  (at level 61, m at next level, right associativity) : stmt_scope.
Notation "m ;; k" := (bind m (fun _ => k))
  (at level 61, right associativity) : stmt_scope.
Local Open Scope stmt_scope.

(** [try: body] followed by [except] clauses, tried in order; an exception no
    clause names goes on. *)
Fixpoint dispatch {A} (clauses : list (except_clause * (exn -> M A)))
    (e : exn) : M A :=
  match clauses with
  | [] => raise e
  | (c, handler) :: more =>
    if isinstance e c then handler e else dispatch more e
  end.

Definition try_except {A} (body : M A)
    (clauses : list (except_clause * (exn -> M A))) : M A :=
  fun w =>
    match body w with
    | (Return a, w1) => (Return a, w1)
    | (Raise e, w1) => dispatch clauses e w1
    end.

(** [with acquire as x: body].  Leaving the block closes [x], which neither
    prints nor raises here, and an exception of the body goes on. *)
Definition with_as {R A} (acquire : M R) (body : R -> M A) : M A :=
  bind acquire body.

(** [for x in xs: body]. *)
Fixpoint for_in {A} (xs : list A) (body : A -> M unit) : M unit :=
  match xs with
  | [] => ret tt
  | x :: rest => body x ;; for_in rest body
  end.

(** The standard output the process was started with, seen through its
    encoder: for a text, [None] when the stream encodes it, the
    [UnicodeEncodeError] that [write] raises otherwise. *)
Definition stream := str -> option exn.

(** A stream that takes every text (an [io.StringIO], a stream opened with
    [errors='surrogatepass']). *)
Definition any_text : stream := fun _ => None.

(** [print(s)] on the stream [out]: [sys.stdout.write(s)], then
    [sys.stdout.write("\n")].  The text is encoded before anything of it is
    written, so that a text the stream refuses leaves the output as it was
    and the exception goes to the caller of [print]. *)
Definition print_on (out : stream) (s : str) : M unit :=
  fun w =>
    match out s with
    | None => (Return tt, MkWorld (fs w) (stdout w ++ s ++ newline))
    | Some e => (Raise e, w)
    end.

(** [print(s)] on a stream that takes every text. *)
Definition print (s : str) : M unit := print_on any_text s.

End Stmt.

Import Stmt.
Local Open Scope stmt_scope.

(** ** A UTF-8 standard output

    The stream a Python process has by default: UTF-8 with
    [errors='strict'].  Its encoder takes every code point but the
    surrogates U+D800 to U+DFFF; at the first surrogate it raises
    [UnicodeEncodeError] over the run of surrogates that starts there. *)

Module Console.

Definition is_surrogate (c : Z) : bool := (0xD800 <=? c) && (c <=? 0xDFFF).

(** Whether the stream encodes the text: no code point is a surrogate. *)
Definition encodable (s : str) : bool :=
  forallb (fun c => negb (is_surrogate c)) s.

(** The number of surrogates a text starts with. *)
Fixpoint surrogate_run (s : str) : nat :=
  match s with
  | [] => O
  | c :: rest => if is_surrogate c then S (surrogate_run rest) else O
  end.

(** [%04x]. *)
Definition hex4 (c : Z) : str :=
  [Utf8.hex_digit (c / 4096); Utf8.hex_digit ((c / 256) mod 16);
   Utf8.hex_digit ((c / 16) mod 16); Utf8.hex_digit (c mod 16)].

(** The [UnicodeEncodeError] for the surrogate [c] at offset [start], first
    of a run of [run] surrogates; the class is one of those
    [OtherException] stands for. *)
Definition encode_error (start : nat) (c : Z) (run : nat) : exn :=
  MkExn OtherException
    (lit "'utf-8' codec can't encode "
     ++ match run with
        | 1%nat => lit "character '\u" ++ hex4 c ++ lit "' in position "
                   ++ Utf8.decimal start
        | _ => lit "characters in position " ++ Utf8.decimal start ++ lit "-"
               ++ Utf8.decimal (start + run - 1)
        end
     ++ lit ": surrogates not allowed").

(** The encoder from offset [start] on. *)
Fixpoint encode_from (start : nat) (s : str) : option exn :=
  match s with
  | [] => None
  | c :: rest =>
    if is_surrogate c then
      Some (encode_error start c (S (surrogate_run rest)))
    else encode_from (S start) rest
  end.

(** The stream. *)
Definition utf8_stdout : stream := encode_from 0.

End Console.

Import Console.

(** ** The library calls of the script *)

Module Lib.

(** [zipfile.ZipFile(path, 'r')]: opens the file and reads the central
    directory.  (The text of [FileNotFoundError] is the one of a path that
    [repr] shows unchanged; the script never prints it.) *)
Definition zipfile_ZipFile (path : str) : M ZipFile :=
  fun w =>
    match fs w path with
    | Absent =>
      (Raise (MkExn FileNotFoundError
                (lit "[Errno 2] No such file or directory: '" ++ path ++ lit "'")),
       w)
    | Unopenable _ msg => (Raise (MkExn OtherException msg), w)
    | NotZip => (Raise (MkExn BadZipFile (lit "File is not a zip file")), w)
    | Archive z => (Return z, w)
    end.

(** [ZipFile.namelist()]. *)
Definition ZipFile_namelist (z : ZipFile) : list str := zf_namelist z.

(** The object [ZipFile.open] returns: what its [read()] will give. *)
Definition ZipExtFile := outcome bytes.

(** [ZipFile.open(name)], mode ['r']. *)
Definition ZipFile_open (z : ZipFile) (name : str) : M ZipExtFile :=
  match zf_member z name with
  | OpenFails e => raise e
  | ReadFails e => ret (Raise e)
  | Payload data => ret (Return data)
  end.

(** [ZipExtFile.read()]. *)
Definition ZipExtFile_read (f : ZipExtFile) : M bytes := lift f.

(** [os.path.exists(path)]. *)
Definition os_path_exists (path : str) : M bool :=
  fun w => (Return (node_exists (fs w path)), w).

End Lib.

Import Lib.

(** ** The script *)

(** The script runs on the standard output of its process; each of its
    functions is given first for any stream [out], then on a stream that
    takes every text, under the name it has in the source. *)

(** The body of the inner [try], lines 16 to 26: open the member, read it,
    decode it, print the three lines. *)
Definition read_and_print_on (out : stream) (epub_file : ZipFile)
    (filename : str) : M unit :=
  with_as (ZipFile_open epub_file filename) (fun file =>
    raw <- ZipExtFile_read file ;;
    content <- lift (Utf8.bytes_decode raw Utf8.ignore) ;;
    print_on out (lit "Filename: " ++ filename) ;;
    (if (100 <? len content)%nat then
       print_on out (lit "Content (first 100 chars): " ++ slice_to 100 content)
     else
       print_on out (lit "Content: " ++ content)) ;;
    print_on out (str_mul (lit "-") 20)).

Definition read_and_print : ZipFile -> str -> M unit :=
  read_and_print_on any_text.

(** The body of the [for] loop, lines 15 to 29: the inner [try] with its
    [except Exception as e]. *)
Definition scan_entry_on (out : stream) (epub_file : ZipFile)
    (filename : str) : M unit :=
  try_except
    (read_and_print_on out epub_file filename)
    [(ExceptException, fun e =>
        print_on out
          (lit "Error reading '" ++ filename ++ lit "': " ++ exn_str e))].

Definition scan_entry : ZipFile -> str -> M unit := scan_entry_on any_text.

(** [def explore_epub(epub_filepath)], lines 4 to 35. *)
Definition explore_epub_on (out : stream) (epub_filepath : str) : M unit :=
  try_except
    (with_as (zipfile_ZipFile epub_filepath) (fun epub_file =>
       for_in (ZipFile_namelist epub_file) (scan_entry_on out epub_file)))
    [(ExceptFileNotFoundError, fun _ =>
        print_on out
          (lit "Error: File '" ++ epub_filepath ++ lit "' not found."));
     (ExceptBadZipFile, fun _ =>
        print_on out
          (lit "Error: '" ++ epub_filepath
           ++ lit "' is not a valid ZIP or EPUB file."));
     (ExceptException, fun e =>
        print_on out (lit "An unexpected error occurred: " ++ exn_str e))].

Definition explore_epub : str -> M unit := explore_epub_on any_text.

(** The block under [if __name__ == "__main__":], lines 37 to 42. *)
Definition main_block_on (out : stream) : M unit :=
  let epub_file := lit "file.epub" in
  present <- os_path_exists epub_file ;;
  if present : bool then
    explore_epub_on out epub_file
  else
    print_on out
      (lit "Error: '" ++ epub_file
       ++ lit "' does not exist. Please ensure this file is in the same directory or replace with the correct filepath.").

Definition main_block : M unit := main_block_on any_text.

(** The module's top level: the [def] binds a name and prints nothing; the
    block runs when the module is the program, [__name__ == "__main__"]. *)
Definition module_body_on (out : stream) (name__ : str) : M unit :=
  if list_eq_dec Z.eq_dec name__ (lit "__main__") then main_block_on out
  else ret tt.

Definition module_body : str -> M unit := module_body_on any_text.

(** Running the file as a program. *)
Definition run_script_on (out : stream) : M unit :=
  module_body_on out (lit "__main__").

Definition run_script : M unit := run_script_on any_text.

(** ** Vocabulary of the statements

    The definitions below are not code of the script: they name what the
    specification talks about, so that the theorems can say it. *)

Module Spec.

(** The code points the scan decoded, the malformed spans left out. *)
Fixpoint scalars (items : list Utf8.item) : str :=
  match items with
  | [] => []
  | Utf8.Scalar c :: rest => c :: scalars rest
  | Utf8.Malformed _ _ :: rest => scalars rest
  end.

(** The same with U+FFFD standing for each malformed span. *)
Fixpoint scalars_or_fffd (items : list Utf8.item) : str :=
  match items with
  | [] => []
  | Utf8.Scalar c :: rest => c :: scalars_or_fffd rest
  | Utf8.Malformed _ _ :: rest => Utf8.replacement_character :: scalars_or_fffd rest
  end.

(** The UTF-8 encoding of a code point (RFC 3629, section 3), as byte
    values. *)
Definition encode_scalar (c : Z) : list Z :=
  if c <? 0x80 then [c]
  else if c <? 0x800 then [0xC0 + c / 64; 0x80 + c mod 64]
  else if c <? 0x10000 then
    [0xE0 + c / 4096; 0x80 + (c / 64) mod 64; 0x80 + c mod 64]
  else
    [0xF0 + c / 262144; 0x80 + (c / 4096) mod 64;
     0x80 + (c / 64) mod 64; 0x80 + c mod 64].

(** A Unicode scalar value: a code point that is not a surrogate. *)
Definition scalar_value (c : Z) : Prop :=
  0 <= c <= 0x10FFFF /\ ~ (0xD800 <= c <= 0xDFFF).

(** The bytes of the input an item of the scan stands for. *)
Definition item_bytes (it : Utf8.item) : list Z :=
  match it with
  | Utf8.Scalar c => encode_scalar c
  | Utf8.Malformed _ skipped => map Utf8.byte_val skipped
  end.

(** The items account for the input: put back in order, the encodings of
    the code points and the skipped spans are the input, byte for byte, and
    every code point is a Unicode scalar value. *)
Definition accounts (items : list Utf8.item) (s : bytes) : Prop :=
  concat (map item_bytes items) = map Utf8.byte_val s
  /\ Forall scalar_value (scalars items).

(** A list with some of its elements deleted. *)
Inductive subsequence {A : Type} : list A -> list A -> Prop :=
| subsequence_nil : subsequence [] []
| subsequence_keep x l1 l2 : subsequence l1 l2 -> subsequence (x :: l1) (x :: l2)
| subsequence_drop x l1 l2 : subsequence l1 l2 -> subsequence l1 (x :: l2).

(** The separator line. *)
Definition dash : Z := 45.
Definition separator : str := repeat dash 20.

(** The three lines of an entry that was read, for its decoded text. *)
Definition entry_block (filename content : str) : str :=
  (lit "Filename: " ++ filename ++ newline)
  ++ (if (100 <? List.length content)%nat
      then lit "Content (first 100 chars): " ++ firstn 100 content
      else lit "Content: " ++ content) ++ newline
  ++ separator ++ newline.

(** The line of an entry that could not be read. *)
Definition entry_error (filename cause : str) : str :=
  lit "Error reading '" ++ filename ++ lit "': " ++ cause ++ newline.

(** What the scan of one entry writes. *)
Definition entry_report (z : ZipFile) (filename : str) : str :=
  match zf_member z filename with
  | OpenFails e => entry_error filename (exn_str e)
  | ReadFails e => entry_error filename (exn_str e)
  | Payload data => entry_block filename (scalars (Utf8.scan data))
  end.

(** What the scan of a list of entries writes. *)
Definition entries_report (z : ZipFile) (names : list str) : str :=
  concat (map (entry_report z) names).

(** What one call of the explorer writes, by what the path leads to. *)
Definition explore_report (n : node) (path : str) : str :=
  match n with
  | Absent => lit "Error: File '" ++ path ++ lit "' not found." ++ newline
  | NotZip =>
    lit "Error: '" ++ path ++ lit "' is not a valid ZIP or EPUB file." ++ newline
  | Unopenable _ msg => lit "An unexpected error occurred: " ++ msg ++ newline
  | Archive z => entries_report z (zf_namelist z)
  end.

(** A chunk of output that reports on the entry [filename]: it is the
    three lines that open with the entry's [Filename:] line, or it is the
    entry's [Error reading] line. *)
Definition reports_on (filename chunk : str) : Prop :=
  (exists content, chunk = entry_block filename content)
  \/ (exists cause, chunk = entry_error filename cause).

(** The world after a statement wrote [text]. *)
Definition wrote (w : World) (text : str) : World :=
  MkWorld (fs w) (stdout w ++ text).

End Spec.

Import Spec.

(** ** Sample worlds *)

Module Sample.

Definition str_eqb (a b : str) : bool :=
  if list_eq_dec Z.eq_dec a b then true else false.

(** The archive of the specification's example, [a.txt] holding [hi] and
    [b.html] holding 150 times [x], with a corrupt member between them and a
    member that is not UTF-8 ([a], the byte 0xFF, [b]) at the end. *)
Definition book : ZipFile :=
  MkZipFile
    [lit "a.txt"; lit "broken"; lit "b.html"; lit "latin"]
    (fun name =>
       if str_eqb name (lit "a.txt") then Payload [x68; x69]
       else if str_eqb name (lit "broken") then
         ReadFails (MkExn BadZipFile (lit "Bad CRC-32 for file 'broken'"))
       else if str_eqb name (lit "b.html") then Payload (repeat x78 150)
       else if str_eqb name (lit "latin") then Payload [x61; xff; x62]
       else
         (* KeyError: str(e) is the repr of its message, in double quotes *)
         OpenFails (MkExn OtherException
                      ([34] ++ lit "There is no item named '" ++ name
                       ++ lit "' in the archive" ++ [34]))).

(** A directory with the book as [file.epub], a text file and a
    subdirectory. *)
Definition shelf : World :=
  MkWorld
    (fun path =>
       if str_eqb path (lit "file.epub") then Archive book
       else if str_eqb path (lit "notes.txt") then NotZip
       else if str_eqb path (lit "drafts") then
         Unopenable true (lit "[Errno 21] Is a directory: 'drafts'")
       else Absent)
    [].

(** An empty directory. *)
Definition bare : World := MkWorld (fun _ => Absent) [].

End Sample.

(** ** Kinds of payload and further samples *)

Module Cases.

(** A byte of the ASCII range. *)
Definition ascii_byte (b : byte) : Prop := Utf8.byte_val b < 0x80.

(** A byte that can start no sequence: a continuation byte, 0xC0, 0xC1, or
    0xF5 and above. *)
Definition stray_byte (b : byte) : Prop :=
  0x80 <= Utf8.byte_val b < 0xC2 \/ 0xF5 <= Utf8.byte_val b.

(** An archive without entries. *)
Definition blank : ZipFile :=
  MkZipFile []
    (fun name =>
       OpenFails (MkExn OtherException
                    ([34] ++ lit "There is no item named '" ++ name
                     ++ lit "' in the archive" ++ [34]))).

(** An archive of two members: [junk] holds three stray bytes, [plain]
    holds the ASCII text [ok]. *)
Definition scraps : ZipFile :=
  MkZipFile
    [lit "junk"; lit "plain"]
    (fun name =>
       if Sample.str_eqb name (lit "junk") then Payload [x80; xff; xc0]
       else if Sample.str_eqb name (lit "plain") then Payload [x6f; x6b]
       else
         OpenFails (MkExn OtherException
                      ([34] ++ lit "There is no item named '" ++ name
                       ++ lit "' in the archive" ++ [34]))).

(** A directory where [file.epub] is not an archive, next to the two
    archives above. *)
Definition attic : World :=
  MkWorld
    (fun path =>
       if Sample.str_eqb path (lit "file.epub") then NotZip
       else if Sample.str_eqb path (lit "blank.epub") then Archive blank
       else if Sample.str_eqb path (lit "scraps.zip") then Archive scraps
       else Absent)
    [].

End Cases.

(** ** Text the standard output can encode, and worlds at the edges *)

Module Edge.

(** The text the library hands to the script for a member: the message of
    the exception, when there is one. *)
Definition member_encodable (m : member) : bool :=
  match m with
  | OpenFails e => encodable (exn_str e)
  | ReadFails e => encodable (exn_str e)
  | Payload _ => true
  end.

(** The names of the archive and the messages of its members are text a
    UTF-8 stream encodes, as they are when zipfile made them: names are
    decoded from CP437 or UTF-8, messages show names through [repr]. *)
Definition archive_encodable (z : ZipFile) : bool :=
  forallb (fun name => encodable name && member_encodable (zf_member z name))
          (zf_namelist z).

(** The same for whatever a path leads to. *)
Definition library_text_encodable (n : node) : bool :=
  match n with
  | Absent => true
  | Unopenable _ msg => encodable msg
  | NotZip => true
  | Archive z => archive_encodable z
  end.

(** A file name that is not UTF-8 on disk (the Latin-1 bytes of a word with
    an accent), as [os.fsdecode] gives it: the byte 0xE9 becomes the lone
    surrogate U+DCE9. *)
Definition cafe : str := lit "caf" ++ [0xDCE9].

(** A directory with
    - a text file [notes.txt], so that the path [notes.txt/x] does not
      exist and opening it raises [NotADirectoryError];
    - a file [odd.zip] whose central directory names an entry in bytes
      that are not UTF-8 though flagged so: [ZipFile] raises the decoder's
      [UnicodeDecodeError], not [BadZipFile];
    - a text file whose name is [cafe] followed by [.zip];
    - and no file whose name is [cafe] followed by [.epub]. *)
Definition desk : World :=
  MkWorld
    (fun path =>
       if Sample.str_eqb path (lit "notes.txt") then NotZip
       else if Sample.str_eqb path (lit "notes.txt/x") then
         Unopenable false (lit "[Errno 20] Not a directory: 'notes.txt/x'")
       else if Sample.str_eqb path (lit "odd.zip") then
         Unopenable true
           (exn_str (Utf8.decode_error 0 Utf8.InvalidStart [xff]))
       else if Sample.str_eqb path (cafe ++ lit ".zip") then NotZip
       else Absent)
    [].

End Edge.

(** ** The decoder *)

Ltac shifts :=
  rewrite ?Z.shiftl_mul_pow2 by lia;
  change (2 ^ 6) with 64; change (2 ^ 12) with 4096; change (2 ^ 18) with 262144.

Ltac ltb_cases :=
  repeat match goal with
  | |- context [?a <? ?b] => destruct (Z.ltb_spec a b); try lia
  end.

Ltac divmod := Z.div_mod_to_equations; lia.

Import Utf8.

Lemma byte_val_range (b : byte) : 0 <= byte_val b <= 255.
Proof.
  unfold byte_val. pose proof (Byte.to_N_bounded b). lia.
Qed.

Lemma is_continuation_byte_spec (ch : Z) :
  is_continuation_byte ch = true <-> 0x80 <= ch < 0xC0.
Proof.
  unfold is_continuation_byte. rewrite andb_true_iff, Z.leb_le, Z.ltb_lt. tauto.
Qed.

Ltac refused H :=
  apply orb_false_iff in H; destruct H as [?C ?K];
  apply negb_false_iff, is_continuation_byte_spec in C.

Ltac refused1 H := apply negb_false_iff, is_continuation_byte_spec in H.

(** With [errors='ignore'] the handler returns, whatever the scan found, and
    what it returns is the decoded code points alone. *)
Lemma handle_ignore (items : list item) :
  forall start, handle ignore start items = Return (scalars items).
Proof.
  induction items as [|[c|r skipped] rest IH]; intro start; simpl.
  - reflexivity.
  - now rewrite IH.
  - apply IH.
Qed.

Lemma handle_replace (items : list item) :
  forall start, handle replace start items = Return (scalars_or_fffd items).
Proof.
  induction items as [|[c|r skipped] rest IH]; intro start; simpl;
    try rewrite IH; reflexivity.
Qed.

Lemma bytes_decode_ignore (s : bytes) :
  bytes_decode s ignore = Return (scalars (scan s)).
Proof. apply handle_ignore. Qed.

Lemma bytes_decode_replace (s : bytes) :
  bytes_decode s replace = Return (scalars_or_fffd (scan s)).
Proof. apply handle_replace. Qed.

Lemma encode_two (ch ch2 : Z) :
  0xC2 <= ch < 0xE0 -> 0x80 <= ch2 < 0xC0 ->
  let c := Z.shiftl ch 6 + ch2 - (Z.shiftl 0xC0 6 + 0x80) in
  encode_scalar c = [ch; ch2] /\ scalar_value c.
Proof.
  intros H1 H2 c. subst c. shifts. unfold encode_scalar, scalar_value.
  ltb_cases. split; [|lia].
  repeat f_equal; divmod.
Qed.

Lemma encode_three (ch ch2 ch3 : Z) :
  0xE0 <= ch < 0xF0 -> 0x80 <= ch2 < 0xC0 -> 0x80 <= ch3 < 0xC0 ->
  (if ch2 <? 0xA0 then ch =? 0xE0 else ch =? 0xED) = false ->
  let c := Z.shiftl ch 12 + Z.shiftl ch2 6 + ch3
           - (Z.shiftl 0xE0 12 + Z.shiftl 0x80 6 + 0x80) in
  encode_scalar c = [ch; ch2; ch3] /\ scalar_value c.
Proof.
  intros H1 H2 H3 H c. subst c. shifts.
  assert (Hlo : ch = 0xE0 -> 0xA0 <= ch2)
    by (destruct (Z.ltb_spec ch2 0xA0); [apply Z.eqb_neq in H|]; lia).
  assert (Hhi : ch = 0xED -> ch2 < 0xA0)
    by (destruct (Z.ltb_spec ch2 0xA0); [|apply Z.eqb_neq in H]; lia).
  clear H. unfold encode_scalar, scalar_value.
  ltb_cases. split; [|lia].
  repeat f_equal; divmod.
Qed.

Lemma encode_four (ch ch2 ch3 ch4 : Z) :
  0xF0 <= ch < 0xF5 -> 0x80 <= ch2 < 0xC0 -> 0x80 <= ch3 < 0xC0 ->
  0x80 <= ch4 < 0xC0 ->
  (if ch2 <? 0x90 then ch =? 0xF0 else ch =? 0xF4) = false ->
  let c := Z.shiftl ch 18 + Z.shiftl ch2 12 + Z.shiftl ch3 6 + ch4
           - (Z.shiftl 0xF0 18 + Z.shiftl 0x80 12 + Z.shiftl 0x80 6 + 0x80) in
  encode_scalar c = [ch; ch2; ch3; ch4] /\ scalar_value c.
Proof.
  intros H1 H2 H3 H4 H c. subst c. shifts.
  assert (Hlo : ch = 0xF0 -> 0x90 <= ch2)
    by (destruct (Z.ltb_spec ch2 0x90); [apply Z.eqb_neq in H|]; lia).
  assert (Hhi : ch = 0xF4 -> ch2 < 0x90)
    by (destruct (Z.ltb_spec ch2 0x90); [|apply Z.eqb_neq in H]; lia).
  clear H. unfold encode_scalar, scalar_value.
  ltb_cases. split; [|lia].
  repeat f_equal; divmod.
Qed.


Lemma accounts_nil : accounts [] [].
Proof. split; constructor. Qed.

Lemma accounts_malformed r (skipped : bytes) items (t : bytes) :
  accounts items t -> accounts (Malformed r skipped :: items) (skipped ++ t).
Proof.
  intros [E V]. split; [|exact V].
  cbn [map concat item_bytes]. now rewrite E, map_app.
Qed.

Lemma accounts_scalar c (enc : bytes) items (t : bytes) :
  encode_scalar c = map byte_val enc /\ scalar_value c ->
  accounts items t -> accounts (Scalar c :: items) (enc ++ t).
Proof.
  intros [Hc Vc] [E V]. split.
  - cbn [map concat item_bytes]. now rewrite E, Hc, map_app.
  - now constructor.
Qed.

Lemma encode_ascii (ch : Z) :
  0 <= ch < 0x80 -> encode_scalar ch = [ch] /\ scalar_value ch.
Proof.
  intro H. unfold encode_scalar, scalar_value. ltb_cases. split; [reflexivity|lia].
Qed.

(** The scan accounts for every byte of its input once and in order: each
    code point stands for the bytes that encode it, each malformed span for
    the bytes it skipped; and every code point is a Unicode scalar value. *)
Lemma scan_accounts_upto (n : nat) :
  forall s, (List.length s <= n)%nat -> accounts (scan s) s.
Proof.
  induction n as [|n IH]; intros s Hlen.
  - destruct s; [apply accounts_nil | simpl in Hlen; lia].
  - destruct s as [|b1 s1]; [apply accounts_nil|].
    simpl in Hlen.
    pose proof (byte_val_range b1) as R1.
    cbn [scan].
    destruct (Z.ltb_spec (byte_val b1) 0x80) as [L1|L1].
    { apply (accounts_scalar _ [b1]); [apply encode_ascii; lia | apply IH; lia]. }
    destruct (Z.ltb_spec (byte_val b1) 0xE0) as [L2|L2].
    { destruct (Z.ltb_spec (byte_val b1) 0xC2) as [L3|L3].
      { apply (accounts_malformed _ [b1]), IH; lia. }
      destruct s1 as [|b2 s2].
      { apply (accounts_malformed _ [b1] [] []), accounts_nil. }
      simpl in Hlen.
      destruct (negb (is_continuation_byte (byte_val b2))) eqn:C2.
      { apply (accounts_malformed _ [b1]), IH; simpl; lia. }
      refused1 C2.
      apply (accounts_scalar _ [b1; b2]); [apply encode_two; lia | apply IH; lia]. }
    destruct (Z.ltb_spec (byte_val b1) 0xF0) as [L3|L3].
    { destruct s1 as [|b2 s2].
      { apply (accounts_malformed _ [b1] [] []), accounts_nil. }
      simpl in Hlen.
      match goal with |- context [if ?c then _ else _] => destruct c eqn:C2 end.
      { apply (accounts_malformed _ [b1]), IH; simpl; lia. }
      refused C2.
      destruct s2 as [|b3 s3].
      { apply (accounts_malformed _ [b1; b2] [] []), accounts_nil. }
      simpl in Hlen.
      destruct (negb (is_continuation_byte (byte_val b3))) eqn:C3.
      { apply (accounts_malformed _ [b1; b2]), IH; simpl; lia. }
      refused1 C3.
      apply (accounts_scalar _ [b1; b2; b3]);
        [apply encode_three; (lia || assumption) | apply IH; lia]. }
    destruct (Z.ltb_spec (byte_val b1) 0xF5) as [L4|L4].
    { destruct s1 as [|b2 s2].
      { apply (accounts_malformed _ [b1] [] []), accounts_nil. }
      simpl in Hlen.
      match goal with |- context [if ?c then _ else _] => destruct c eqn:C2 end.
      { apply (accounts_malformed _ [b1]), IH; simpl; lia. }
      refused C2.
      destruct s2 as [|b3 s3].
      { apply (accounts_malformed _ [b1; b2] [] []), accounts_nil. }
      simpl in Hlen.
      destruct (negb (is_continuation_byte (byte_val b3))) eqn:C3.
      { apply (accounts_malformed _ [b1; b2]), IH; simpl; lia. }
      refused1 C3.
      destruct s3 as [|b4 s4].
      { apply (accounts_malformed _ [b1; b2; b3] [] []), accounts_nil. }
      simpl in Hlen.
      destruct (negb (is_continuation_byte (byte_val b4))) eqn:C4.
      { apply (accounts_malformed _ [b1; b2; b3]), IH; simpl; lia. }
      refused1 C4.
      apply (accounts_scalar _ [b1; b2; b3; b4]);
        [apply encode_four; (lia || assumption) | apply IH; lia]. }
    apply (accounts_malformed _ [b1]), IH; lia.
Qed.

Theorem scan_accounts (s : bytes) : accounts (scan s) s.
Proof. apply (scan_accounts_upto (List.length s)). lia. Qed.

(** *** Well-formed input

    The forward direction of the scan, one lemma per length. *)

Ltac cont_true :=
  match goal with
  | |- context [is_continuation_byte ?x] =>
    replace (is_continuation_byte x) with true
      by (symmetry; apply is_continuation_byte_spec; lia)
  end.

Ltac eqb_cases :=
  repeat match goal with
  | |- context [?a =? ?b] => destruct (Z.eqb_spec a b); try lia
  end.

Lemma scan_one b1 s1 :
  byte_val b1 < 0x80 -> scan (b1 :: s1) = Scalar (byte_val b1) :: scan s1.
Proof. intro H. cbn [scan]. ltb_cases. reflexivity. Qed.

Lemma scan_two b1 b2 s2 :
  0xC2 <= byte_val b1 < 0xE0 -> 0x80 <= byte_val b2 < 0xC0 ->
  scan (b1 :: b2 :: s2)
  = Scalar (Z.shiftl (byte_val b1) 6 + byte_val b2 - (Z.shiftl 0xC0 6 + 0x80))
    :: scan s2.
Proof.
  intros H1 H2. cbn [scan]. cont_true. ltb_cases. reflexivity.
Qed.

Lemma scan_three b1 b2 b3 s3 :
  0xE0 <= byte_val b1 < 0xF0 -> 0x80 <= byte_val b2 < 0xC0 ->
  0x80 <= byte_val b3 < 0xC0 ->
  (byte_val b1 = 0xE0 -> 0xA0 <= byte_val b2) ->
  (byte_val b1 = 0xED -> byte_val b2 < 0xA0) ->
  scan (b1 :: b2 :: b3 :: s3)
  = Scalar (Z.shiftl (byte_val b1) 12 + Z.shiftl (byte_val b2) 6 + byte_val b3
            - (Z.shiftl 0xE0 12 + Z.shiftl 0x80 6 + 0x80))
    :: scan s3.
Proof.
  intros H1 H2 H3 Hlo Hhi. cbn [scan]. do 2 cont_true.
  ltb_cases; eqb_cases; reflexivity.
Qed.

Lemma scan_four b1 b2 b3 b4 s4 :
  0xF0 <= byte_val b1 < 0xF5 -> 0x80 <= byte_val b2 < 0xC0 ->
  0x80 <= byte_val b3 < 0xC0 -> 0x80 <= byte_val b4 < 0xC0 ->
  (byte_val b1 = 0xF0 -> 0x90 <= byte_val b2) ->
  (byte_val b1 = 0xF4 -> byte_val b2 < 0x90) ->
  scan (b1 :: b2 :: b3 :: b4 :: s4)
  = Scalar (Z.shiftl (byte_val b1) 18 + Z.shiftl (byte_val b2) 12
            + Z.shiftl (byte_val b3) 6 + byte_val b4
            - (Z.shiftl 0xF0 18 + Z.shiftl 0x80 12 + Z.shiftl 0x80 6 + 0x80))
    :: scan s4.
Proof.
  intros H1 H2 H3 H4 Hlo Hhi. cbn [scan]. do 3 cont_true.
  ltb_cases; eqb_cases; reflexivity.
Qed.

Lemma map_cons_inv {A B} (f : A -> B) (s : list A) (x : B) (t : list B) :
  map f s = x :: t -> exists b s', s = b :: s' /\ f b = x /\ map f s' = t.
Proof.
  destruct s as [|b s']; [discriminate|].
  intro H. exists b, s'. cbn [map] in H.
  split; [reflexivity|]. split; congruence.
Qed.

Ltac peel s H b s' Hb :=
  apply map_cons_inv in H; destruct H as (b & s' & -> & Hb & H).

(** A well-formed input, the encoding of scalar values, is scanned into
    these scalar values: nothing of it is taken for malformed. *)
Lemma scan_well_formed (cs : list Z) :
  Forall scalar_value cs ->
  forall s, map byte_val s = concat (map encode_scalar cs) ->
            scan s = map Scalar cs.
Proof.
  induction 1 as [|c cs [Hr Hs] _ IH]; intros s Hs0.
  - destruct s; [reflexivity | discriminate].
  - cbn [map concat] in Hs0. unfold encode_scalar in Hs0.
    destruct (Z.ltb_spec c 0x80); [|destruct (Z.ltb_spec c 0x800);
      [|destruct (Z.ltb_spec c 0x10000)]]; cbn [app] in Hs0.
    + peel s Hs0 b1 s1 E1.
      rewrite scan_one by lia. cbn [map]. now rewrite (IH s1 Hs0), E1.
    + peel s Hs0 b1 s1 E1. peel s1 Hs0 b2 s2 E2.
      rewrite scan_two by divmod. cbn [map]. rewrite (IH s2 Hs0).
      do 2 f_equal. rewrite E1, E2. shifts. divmod.
    + peel s Hs0 b1 s1 E1. peel s1 Hs0 b2 s2 E2. peel s2 Hs0 b3 s3 E3.
      rewrite scan_three by divmod. cbn [map]. rewrite (IH s3 Hs0).
      do 2 f_equal. rewrite E1, E2, E3. shifts. divmod.
    + peel s Hs0 b1 s1 E1. peel s1 Hs0 b2 s2 E2. peel s2 Hs0 b3 s3 E3.
      peel s3 Hs0 b4 s4 E4.
      rewrite scan_four by divmod. cbn [map]. rewrite (IH s4 Hs0).
      do 2 f_equal. rewrite E1, E2, E3, E4. shifts. divmod.
Qed.

Lemma scalars_map_Scalar (cs : list Z) : scalars (map Scalar cs) = cs.
Proof. induction cs as [|c cs IH]; cbn; [reflexivity | now rewrite IH]. Qed.

(** Deleting the skipped spans leaves a subsequence of the input. *)
Lemma subsequence_refl {A} (l : list A) : subsequence l l.
Proof. induction l; now constructor. Qed.

Lemma subsequence_app {A} (l1 l2 k1 k2 : list A) :
  subsequence l1 k1 -> subsequence l2 k2 -> subsequence (l1 ++ l2) (k1 ++ k2).
Proof.
  intros H1 H2. induction H1; cbn [app]; try assumption; now constructor.
Qed.

Lemma subsequence_skip {A} (l k1 k2 : list A) :
  subsequence l k2 -> subsequence l (k1 ++ k2).
Proof. intro H. induction k1; cbn [app]; [assumption | now constructor]. Qed.

Lemma scalars_subsequence (items : list item) :
  subsequence (concat (map encode_scalar (scalars items)))
              (concat (map item_bytes items)).
Proof.
  induction items as [|[c|r skipped] rest IH]; cbn [scalars map concat item_bytes].
  - constructor.
  - apply subsequence_app; [apply subsequence_refl | exact IH].
  - apply subsequence_skip, IH.
Qed.

(** ** The statements of the script *)

Lemma wrote_nil (w : World) : wrote w [] = w.
Proof. destruct w. unfold wrote. cbn. now rewrite app_nil_r. Qed.

Lemma wrote_wrote (w : World) (a b : str) :
  wrote (wrote w a) b = wrote w (a ++ b).
Proof. unfold wrote. cbn. now rewrite app_assoc. Qed.

Lemma print_wrote (s : str) (w : World) :
  print s w = (Return tt, wrote w (s ++ newline)).
Proof. reflexivity. Qed.

Lemma separator_line : str_mul (lit "-") 20 = separator.
Proof. reflexivity. Qed.

(** The inner [try] body on a member that opens and reads. *)
Lemma read_and_print_payload z filename data w :
  zf_member z filename = Payload data ->
  read_and_print z filename w
  = (Return tt, wrote w (entry_block filename (scalars (scan data)))).
Proof.
  intro Hm.
  unfold read_and_print, read_and_print_on, with_as, ZipFile_open,
    ZipExtFile_read, bind, lift, ret.
  rewrite Hm, bytes_decode_ignore.
  change (print_on any_text) with print.
  rewrite print_wrote.
  unfold entry_block, len, slice_to.
  destruct (100 <? List.length (scalars (scan data)))%nat;
    rewrite !print_wrote, !wrote_wrote, separator_line;
    do 2 f_equal; now rewrite <- !app_assoc.
Qed.

(** The inner [try] body on a member that does not: the exception leaves the
    body before anything is printed. *)
Lemma read_and_print_fails z filename e w :
  zf_member z filename = OpenFails e \/ zf_member z filename = ReadFails e ->
  read_and_print z filename w = (Raise e, w).
Proof.
  unfold read_and_print, read_and_print_on, with_as, ZipFile_open,
    ZipExtFile_read, bind, lift, ret, raise.
  now intros [-> | ->].
Qed.

(** One turn of the loop always ends normally, having written the entry's
    report. *)
Lemma scan_entry_report z filename w :
  scan_entry z filename w = (Return tt, wrote w (entry_report z filename)).
Proof.
  unfold scan_entry, scan_entry_on, try_except, entry_report.
  change (read_and_print_on any_text) with read_and_print.
  change (print_on any_text) with print.
  destruct (zf_member z filename) as [e|e|data] eqn:Hm.
  - rewrite (read_and_print_fails z filename e) by now left.
    cbn [dispatch isinstance]. now rewrite print_wrote, <- !app_assoc.
  - rewrite (read_and_print_fails z filename e) by now right.
    cbn [dispatch isinstance]. now rewrite print_wrote, <- !app_assoc.
  - now rewrite (read_and_print_payload z filename data).
Qed.

(** The loop, by induction on the names left. *)
Lemma for_in_report z names :
  forall w, for_in names (scan_entry z) w
            = (Return tt, wrote w (entries_report z names)).
Proof.
  induction names as [|name rest IH]; intro w.
  - cbn. now rewrite wrote_nil.
  - cbn [for_in]. unfold bind. rewrite scan_entry_report, IH, wrote_wrote.
    reflexivity.
Qed.

(** The whole call. *)
Lemma explore_epub_report path w :
  explore_epub path w = (Return tt, wrote w (explore_report (fs w path) path)).
Proof.
  unfold explore_epub, explore_epub_on, try_except, with_as, bind,
    zipfile_ZipFile, explore_report.
  change (scan_entry_on any_text) with scan_entry.
  change (print_on any_text) with print.
  destruct (fs w path) as [|seen msg| |z].
  - cbn [dispatch isinstance exn_cls]. now rewrite print_wrote, <- !app_assoc.
  - cbn [dispatch isinstance exn_cls exn_str]. now rewrite print_wrote, <- !app_assoc.
  - cbn [dispatch isinstance exn_cls]. now rewrite print_wrote, <- !app_assoc.
  - unfold ZipFile_namelist. now rewrite for_in_report.
Qed.

(** The module run as a program, on any stream: the test, then one of the
    two branches. *)
Lemma run_script_on_branches out w :
  run_script_on out w
  = if node_exists (fs w (lit "file.epub"))
    then explore_epub_on out (lit "file.epub") w
    else print_on out
           (lit "Error: 'file.epub' does not exist. Please ensure this file is in the same directory or replace with the correct filepath.")
           w.
Proof.
  unfold run_script_on, module_body_on.
  destruct (list_eq_dec Z.eq_dec (lit "__main__") (lit "__main__")) as [_|N];
    [|now elim N].
  unfold main_block_on, bind, os_path_exists.
  now destruct (node_exists (fs w (lit "file.epub"))).
Qed.

Lemma entries_report_app z l1 l2 :
  entries_report z (l1 ++ l2) = entries_report z l1 ++ entries_report z l2.
Proof. unfold entries_report. now rewrite map_app, concat_app. Qed.

Lemma entries_report_cons z name rest :
  entries_report z (name :: rest) = entry_report z name ++ entries_report z rest.
Proof. reflexivity. Qed.

(** ** The claims *)

(** C1, as the code has it.  For every archive entry whose bytes are read,
    decoding with [errors='ignore'] returns a text and the entry is printed,
    never reported as an error.  The bytes that cannot be decoded are
    dropped, not replaced: the text is the code points of the well-formed
    sequences of the input; the scan accounts for every input byte as part
    of such a sequence or of a skipped span; the text encoded again is the
    input with bytes deleted; and an input that is well-formed throughout
    loses nothing. *)
Theorem undecodable_bytes_are_dropped z filename data w :
  zf_member z filename = Payload data ->
  exists content,
    bytes_decode data ignore = Return content
    /\ scan_entry z filename w = (Return tt, wrote w (entry_block filename content))
    /\ content = scalars (scan data)
    /\ accounts (scan data) data
    /\ subsequence (concat (map encode_scalar content)) (map byte_val data)
    /\ (forall cs, Forall scalar_value cs ->
                   map byte_val data = concat (map encode_scalar cs) ->
                   content = cs).
Proof.
  intro Hm. exists (scalars (scan data)).
  pose proof (scan_accounts data) as Hacc.
  repeat split; try apply Hacc.
  - apply bytes_decode_ignore.
  - rewrite scan_entry_report. unfold entry_report. now rewrite Hm.
  - destruct Hacc as [<- _]. apply scalars_subsequence.
  - intros cs Hcs Henc.
    now rewrite (scan_well_formed cs Hcs data Henc), scalars_map_Scalar.
Qed.

Lemma undecodable_bytes_are_dropped_witness :
  zf_member Sample.book (lit "latin") = Payload [x61; xff; x62]
  /\ exists content,
       bytes_decode [x61; xff; x62] ignore = Return content
       /\ content = [97; 98].
Proof.
  split; [reflexivity|].
  destruct (undecodable_bytes_are_dropped Sample.book (lit "latin")
              [x61; xff; x62] Sample.shelf eq_refl)
    as (content & Hdec & _ & Hc & _).
  exists content. split; [exact Hdec | exact Hc].
Defined.

(** C1, as the specification has it, fails: the member [latin] of the sample
    archive holds the bytes [a], 0xFF, [b]; with a replacement character the
    text would be [a], U+FFFD, [b], and the scan prints [ab], with no U+FFFD
    anywhere in the output. *)
Lemma undecodable_byte_not_replaced :
  zf_member Sample.book (lit "latin") = Payload [x61; xff; x62]
  /\ bytes_decode [x61; xff; x62] replace = Return [97; replacement_character; 98]
  /\ stdout (snd (scan_entry Sample.book (lit "latin") Sample.shelf))
     = lit "Filename: latin" ++ newline
       ++ lit "Content: ab" ++ newline
       ++ lit "--------------------" ++ newline
  /\ ~ In replacement_character
         (stdout (snd (explore_epub (lit "file.epub") Sample.shelf))).
Proof.
  repeat split; try reflexivity.
  vm_compute. intuition discriminate.
Qed.

(** C2.  For an entry that is read, the scan writes the line
    [Filename: <name>]; then, when the decoded text is longer than 100
    characters, [Content (first 100 chars): ] and its first 100 characters
    (exactly 100 of them), otherwise [Content: ] and the whole text; then a
    line of exactly 20 dashes. *)
Theorem read_entry_output z filename data w :
  zf_member z filename = Payload data ->
  exists content,
    bytes_decode data ignore = Return content
    /\ scan_entry z filename w
       = (Return tt,
          wrote w (lit "Filename: " ++ filename ++ newline
                   ++ (if (100 <? List.length content)%nat
                       then lit "Content (first 100 chars): " ++ firstn 100 content
                       else lit "Content: " ++ content) ++ newline
                   ++ repeat dash 20 ++ newline))
    /\ ((100 < List.length content)%nat ->
        List.length (firstn 100 content) = 100%nat)
    /\ List.length (repeat dash 20) = 20%nat.
Proof.
  intro Hm. exists (scalars (scan data)). repeat split.
  - apply bytes_decode_ignore.
  - rewrite scan_entry_report. unfold entry_report, entry_block, separator.
    rewrite Hm. now rewrite <- !app_assoc.
  - intro Hlen. rewrite length_firstn. lia.
Qed.

Lemma read_entry_output_witness :
  zf_member Sample.book (lit "b.html") = Payload (repeat x78 150)
  /\ stdout (snd (scan_entry Sample.book (lit "b.html") Sample.shelf))
     = lit "Filename: b.html" ++ newline
       ++ lit "Content (first 100 chars): " ++ repeat 120 100 ++ newline
       ++ lit "--------------------" ++ newline.
Proof.
  split; [reflexivity|].
  destruct (read_entry_output Sample.book (lit "b.html") (repeat x78 150)
              Sample.shelf eq_refl) as (content & Hdec & Hrun & _).
  vm_compute in Hdec. injection Hdec as <-.
  rewrite Hrun. reflexivity.
Defined.

(** C10.  For an entry whose open or read raises, the scan of that entry
    writes the one line [Error reading '<name>': <cause>] and nothing else:
    no [Filename:] line and no separator. *)
Theorem failed_entry_output z filename e w :
  zf_member z filename = OpenFails e \/ zf_member z filename = ReadFails e ->
  scan_entry z filename w
  = (Return tt,
     wrote w (lit "Error reading '" ++ filename ++ lit "': " ++ exn_str e
              ++ newline)).
Proof.
  intro Hm. rewrite scan_entry_report. unfold entry_report, entry_error.
  now destruct Hm as [-> | ->].
Qed.

Lemma failed_entry_output_witness :
  (zf_member Sample.book (lit "broken")
   = OpenFails (MkExn BadZipFile (lit "Bad CRC-32 for file 'broken'"))
   \/ zf_member Sample.book (lit "broken")
      = ReadFails (MkExn BadZipFile (lit "Bad CRC-32 for file 'broken'")))
  /\ stdout (snd (scan_entry Sample.book (lit "broken") Sample.shelf))
     = lit "Error reading 'broken': Bad CRC-32 for file 'broken'" ++ newline.
Proof.
  assert (H : zf_member Sample.book (lit "broken")
              = OpenFails (MkExn BadZipFile (lit "Bad CRC-32 for file 'broken'"))
              \/ zf_member Sample.book (lit "broken")
                 = ReadFails (MkExn BadZipFile (lit "Bad CRC-32 for file 'broken'")))
    by (right; reflexivity).
  split; [exact H|].
  rewrite (failed_entry_output Sample.book (lit "broken") _ Sample.shelf H).
  reflexivity.
Defined.

(** C3.  When an entry of the archive cannot be read, the explorer writes
    its [Error reading '<name>': <cause>] line between the reports of the
    entries before it and the reports of the entries after it, and returns:
    the entries after it are all scanned, and each of them that is readable
    is printed with its three lines. *)
Theorem bad_entry_does_not_abort path w z before filename after e :
  fs w path = Archive z ->
  zf_namelist z = before ++ filename :: after ->
  zf_member z filename = OpenFails e \/ zf_member z filename = ReadFails e ->
  explore_epub path w
  = (Return tt,
     wrote w (entries_report z before
              ++ (lit "Error reading '" ++ filename ++ lit "': " ++ exn_str e
                  ++ newline)
              ++ entries_report z after))
  /\ for_in after (scan_entry z) (MkWorld (fs w) [])
     = (Return tt, MkWorld (fs w) (entries_report z after))
  /\ forall later data,
       In later after -> zf_member z later = Payload data ->
       exists content pre post,
         bytes_decode data ignore = Return content
         /\ entries_report z after
            = pre ++ entry_block later content ++ post.
Proof.
  intros Hfs Hnames Hm. repeat split.
  - rewrite explore_epub_report, Hfs. cbn [explore_report].
    rewrite Hnames, entries_report_app, entries_report_cons.
    unfold entry_report at 1, entry_error. now destruct Hm as [-> | ->].
  - now rewrite for_in_report.
  - intros later data Hin Hlater.
    apply in_split in Hin. destruct Hin as (l1 & l2 & ->).
    exists (scalars (scan data)), (entries_report z l1), (entries_report z l2).
    split; [apply bytes_decode_ignore|].
    rewrite entries_report_app, entries_report_cons.
    unfold entry_report at 1. now rewrite Hlater.
Qed.

Lemma bad_entry_does_not_abort_witness :
  fs Sample.shelf (lit "file.epub") = Archive Sample.book
  /\ zf_namelist Sample.book
     = [lit "a.txt"] ++ lit "broken" :: [lit "b.html"; lit "latin"]
  /\ stdout (snd (explore_epub (lit "file.epub") Sample.shelf))
     = (lit "Filename: a.txt" ++ newline
        ++ lit "Content: hi" ++ newline
        ++ lit "--------------------" ++ newline)
       ++ (lit "Error reading 'broken': Bad CRC-32 for file 'broken'" ++ newline)
       ++ (lit "Filename: b.html" ++ newline
           ++ lit "Content (first 100 chars): " ++ repeat 120 100 ++ newline
           ++ lit "--------------------" ++ newline)
       ++ (lit "Filename: latin" ++ newline
           ++ lit "Content: ab" ++ newline
           ++ lit "--------------------" ++ newline).
Proof.
  split; [reflexivity|]. split; [reflexivity|].
  destruct (bad_entry_does_not_abort (lit "file.epub") Sample.shelf Sample.book
              [lit "a.txt"] (lit "broken") [lit "b.html"; lit "latin"]
              (MkExn BadZipFile (lit "Bad CRC-32 for file 'broken'"))
              eq_refl eq_refl (or_intror eq_refl)) as (Hrun & _).
  rewrite Hrun. reflexivity.
Defined.

Lemma entry_report_reports_on z filename :
  reports_on filename (entry_report z filename).
Proof.
  unfold entry_report, reports_on.
  destruct (zf_member z filename) as [e|e|data].
  - right. now exists (exn_str e).
  - right. now exists (exn_str e).
  - left. now exists (scalars (scan data)).
Qed.

(** C7.  For an archive, the output of the call is the reports of the names
    of the name list, one for each name and in the order of the name list,
    and nothing else; the report of a name is that name's [Error reading]
    line when its member cannot be read, and the three lines under that
    name's [Filename:] line when it can. *)
Theorem entries_in_archive_order path w z :
  fs w path = Archive z ->
  explore_epub path w
  = (Return tt, wrote w (concat (map (entry_report z) (zf_namelist z))))
  /\ forall name,
       match zf_member z name with
       | OpenFails e =>
         entry_report z name
         = lit "Error reading '" ++ name ++ lit "': " ++ exn_str e ++ newline
       | ReadFails e =>
         entry_report z name
         = lit "Error reading '" ++ name ++ lit "': " ++ exn_str e ++ newline
       | Payload data =>
         entry_report z name
         = lit "Filename: " ++ name ++ newline
           ++ (if (100 <? List.length (scalars (scan data)))%nat
               then lit "Content (first 100 chars): "
                    ++ firstn 100 (scalars (scan data))
               else lit "Content: " ++ scalars (scan data)) ++ newline
           ++ repeat dash 20 ++ newline
       end.
Proof.
  intro Hfs. split.
  - now rewrite explore_epub_report, Hfs.
  - intro name. unfold entry_report, entry_error, entry_block, separator.
    destruct (zf_member z name); try reflexivity.
    now rewrite <- !app_assoc.
Qed.

Lemma entries_in_archive_order_witness :
  fs Sample.shelf (lit "file.epub") = Archive Sample.book
  /\ zf_namelist Sample.book
     = [lit "a.txt"; lit "broken"; lit "b.html"; lit "latin"]
  /\ stdout (snd (explore_epub (lit "file.epub") Sample.shelf))
     = concat
         [lit "Filename: a.txt" ++ newline
          ++ lit "Content: hi" ++ newline
          ++ lit "--------------------" ++ newline;
          lit "Error reading 'broken': Bad CRC-32 for file 'broken'" ++ newline;
          lit "Filename: b.html" ++ newline
          ++ lit "Content (first 100 chars): " ++ repeat 120 100 ++ newline
          ++ lit "--------------------" ++ newline;
          lit "Filename: latin" ++ newline
          ++ lit "Content: ab" ++ newline
          ++ lit "--------------------" ++ newline].
Proof.
  split; [reflexivity|]. split; [reflexivity|].
  rewrite (proj1 (entries_in_archive_order (lit "file.epub") Sample.shelf
                    Sample.book eq_refl)).
  reflexivity.
Defined.

(** C8.  The output of a call depends on the path and on what the path leads
    to, and on nothing else: two calls on the same path in worlds where that
    path leads to the same thing write the same text, character for
    character; and a call leaves the file system as it found it, so that a
    second call right after the first writes the same text again. *)
Theorem explore_epub_deterministic path w w' :
  fs w path = fs w' path ->
  (exists text,
     explore_epub path w = (Return tt, wrote w text)
     /\ explore_epub path w' = (Return tt, wrote w' text))
  /\ (exists text,
        explore_epub path w = (Return tt, wrote w text)
        /\ explore_epub path (wrote w text)
           = (Return tt, wrote (wrote w text) text)).
Proof.
  intro Hfs. split; exists (explore_report (fs w path) path).
  - split; [apply explore_epub_report|].
    rewrite Hfs. apply explore_epub_report.
  - split; [apply explore_epub_report|].
    now rewrite explore_epub_report.
Qed.

Lemma explore_epub_deterministic_witness :
  fs Sample.shelf (lit "file.epub")
  = fs (wrote Sample.shelf (lit "earlier output")) (lit "file.epub")
  /\ exists text,
       stdout (snd (explore_epub (lit "file.epub") Sample.shelf)) = text
       /\ stdout (snd (explore_epub (lit "file.epub")
                         (wrote Sample.shelf (lit "earlier output"))))
          = lit "earlier output" ++ text.
Proof.
  split; [reflexivity|].
  destruct (explore_epub_deterministic (lit "file.epub") Sample.shelf
              (wrote Sample.shelf (lit "earlier output")) eq_refl)
    as ((text & H1 & H2) & _).
  exists text. rewrite H1, H2. split; reflexivity.
Defined.

(** C9.  Run as a program, the script asks whether [file.epub] exists: when
    it does not, the output is the one line telling so and the explorer is
    not called; when it does, the run is the explorer's call on
    [file.epub]. *)
Theorem run_script_spec w :
  (node_exists (fs w (lit "file.epub")) = false ->
   run_script w
   = (Return tt,
      wrote w (lit "Error: 'file.epub' does not exist. Please ensure this file is in the same directory or replace with the correct filepath."
               ++ newline)))
  /\ (node_exists (fs w (lit "file.epub")) = true ->
      run_script w = explore_epub (lit "file.epub") w).
Proof.
  unfold run_script. rewrite run_script_on_branches.
  split; intros ->; reflexivity.
Qed.

Lemma run_script_spec_witness :
  (node_exists (fs Sample.bare (lit "file.epub")) = false
   /\ stdout (snd (run_script Sample.bare))
      = lit "Error: 'file.epub' does not exist. Please ensure this file is in the same directory or replace with the correct filepath."
        ++ newline)
  /\ (node_exists (fs Sample.shelf (lit "file.epub")) = true
      /\ run_script Sample.shelf = explore_epub (lit "file.epub") Sample.shelf).
Proof.
  split.
  - split; [reflexivity|].
    rewrite (proj1 (run_script_spec Sample.bare) eq_refl). reflexivity.
  - split; [reflexivity|].
    exact (proj2 (run_script_spec Sample.shelf) eq_refl).
Defined.

(** ** Beyond the claims: the remaining paths and the edges *)

Import Cases.

(** Literals as lists of code points, for comparing lines. *)
Ltac lits :=
  repeat match goal with
  | |- context [lit ?s] =>
    let v := eval vm_compute in (lit s) in change (lit s) with v
  | H : context [lit ?s] |- _ =>
    let v := eval vm_compute in (lit s) in change (lit s) with v in H
  end.

(** The value of a given byte. *)
Ltac byte_vals :=
  repeat match goal with
  | |- context [byte_val ?b] =>
    let v := eval vm_compute in (byte_val b) in change (byte_val b) with v
  end.

Lemma wrote_inj (w : World) (a b : str) : wrote w a = wrote w b -> a = b.
Proof.
  unfold wrote. intro H. injection H as H. now apply app_inv_head in H.
Qed.


Lemma entry_report_starts z name :
  exists rest,
    entry_report z name = lit "Filename: " ++ rest
    \/ entry_report z name = lit "Error reading '" ++ rest.
Proof.
  unfold entry_report, entry_block, entry_error.
  destruct (zf_member z name) as [e|e|data]; eexists.
  - right. reflexivity.
  - right. reflexivity.
  - left. rewrite <- !app_assoc. reflexivity.
Qed.

(** The reports of an archive's entries are empty for no entry, and start
    with [Filename: ] or [Error reading '] otherwise. *)
Lemma entries_report_starts z names :
  (names = [] /\ entries_report z names = [])
  \/ exists rest,
       entries_report z names = lit "Filename: " ++ rest
       \/ entries_report z names = lit "Error reading '" ++ rest.
Proof.
  destruct names as [|name more]; [left; now split | right].
  rewrite entries_report_cons.
  destruct (entry_report_starts z name) as (rest & [-> | ->]);
    exists (rest ++ entries_report z more); rewrite <- app_assoc; tauto.
Qed.

(** X1.  When the file cannot be opened for a reason other than its absence
    or its format, the whole output of the call is the line
    [An unexpected error occurred: <cause>]. *)
Theorem unexpected_error_output path w seen msg :
  fs w path = Unopenable seen msg ->
  explore_epub path w
  = (Return tt,
     wrote w (lit "An unexpected error occurred: " ++ msg ++ newline)).
Proof.
  intro Hfs. now rewrite explore_epub_report, Hfs.
Qed.

Lemma unexpected_error_output_witness :
  fs Sample.shelf (lit "drafts")
  = Unopenable true (lit "[Errno 21] Is a directory: 'drafts'")
  /\ stdout (snd (explore_epub (lit "drafts") Sample.shelf))
     = lit "An unexpected error occurred: [Errno 21] Is a directory: 'drafts'"
       ++ newline.
Proof.
  split; [reflexivity|].
  rewrite (unexpected_error_output (lit "drafts") Sample.shelf true _ eq_refl).
  reflexivity.
Defined.



(** Only a missing file is reported as [not found]. *)
Lemma not_found_only_when_absent_aux n path :
  explore_report n path
  = lit "Error: File '" ++ path ++ lit "' not found." ++ newline ->
  n = Absent.
Proof.
  destruct n as [|seen msg| |z]; cbn [explore_report]; intro H.
  - reflexivity.
  - lits. discriminate H.
  - lits. discriminate H.
  - destruct (entries_report_starts z (zf_namelist z))
      as [[_ E] | (rest & [E | E])];
      rewrite E in H; lits; discriminate H.
Qed.

(** Only a file that is not an archive is reported as such. *)
Lemma not_zip_only_when_not_zip_aux n path :
  explore_report n path
  = lit "Error: '" ++ path ++ lit "' is not a valid ZIP or EPUB file." ++ newline ->
  n = NotZip.
Proof.
  destruct n as [|seen msg| |z]; cbn [explore_report]; intro H.
  - lits. discriminate H.
  - lits. discriminate H.
  - reflexivity.
  - destruct (entries_report_starts z (zf_namelist z))
      as [[_ E] | (rest & [E | E])];
      rewrite E in H; lits; discriminate H.
Qed.

(** X5.  Run as a program, the script always ends normally and leaves the
    file system as it was; and because it asks whether [file.epub] exists
    before it calls the explorer, the explorer's [not found] line is never
    its output. *)
Theorem run_script_never_not_found w :
  exists text,
    run_script w = (Return tt, wrote w text)
    /\ text <> lit "Error: File 'file.epub' not found." ++ newline.
Proof.
  unfold run_script. rewrite run_script_on_branches.
  change (explore_epub_on any_text) with explore_epub.
  change (print_on any_text) with print.
  destruct (node_exists (fs w (lit "file.epub"))) eqn:Hex.
  - exists (explore_report (fs w (lit "file.epub")) (lit "file.epub")).
    split; [apply explore_epub_report|].
    intro H.
    assert (Habs : fs w (lit "file.epub") = Absent).
    { apply (not_found_only_when_absent_aux _ (lit "file.epub")). exact H. }
    rewrite Habs in Hex. discriminate Hex.
  - eexists. split; [apply print_wrote|]. lits. discriminate.
Qed.

(** *** The decoded text against the payload *)

Lemma encode_scalar_nonempty (c : Z) : (1 <= List.length (encode_scalar c))%nat.
Proof.
  unfold encode_scalar.
  destruct (c <? 0x80), (c <? 0x800), (c <? 0x10000); cbn [List.length]; lia.
Qed.

Lemma scalars_no_longer (items : list item) :
  (List.length (scalars items)
   <= List.length (concat (map item_bytes items)))%nat.
Proof.
  induction items as [|[c|r skipped] rest IH];
    cbn [scalars map concat item_bytes List.length]; rewrite ?length_app.
  - lia.
  - pose proof (encode_scalar_nonempty c). lia.
  - lia.
Qed.

(** Decoding never lengthens: there are at most as many code points as
    bytes. *)
Lemma decoded_no_longer (s : bytes) :
  (List.length (scalars (scan s)) <= List.length s)%nat.
Proof.
  pose proof (scalars_no_longer (scan s)) as H.
  destruct (scan_accounts s) as [E _].
  now rewrite E, length_map in H.
Qed.

Lemma scan_ascii (s : bytes) :
  Forall ascii_byte s -> scan s = map Scalar (map byte_val s).
Proof.
  induction 1 as [|b s Hb _ IH]; [reflexivity|].
  unfold ascii_byte in Hb. rewrite scan_one by exact Hb.
  cbn [map]. now rewrite IH.
Qed.

Lemma scan_stray (s : bytes) :
  Forall stray_byte s -> scalars (scan s) = [].
Proof.
  induction 1 as [|b s Hb _ IH]; [reflexivity|].
  unfold stray_byte in Hb. cbn [scan].
  destruct (Z.ltb_spec (byte_val b) 0x80); [lia|].
  destruct (Z.ltb_spec (byte_val b) 0xE0).
  - destruct (Z.ltb_spec (byte_val b) 0xC2); [exact IH | lia].
  - destruct (Z.ltb_spec (byte_val b) 0xF0); [lia|].
    destruct (Z.ltb_spec (byte_val b) 0xF5); [lia | exact IH].
Qed.

(** When the strict handler returns, the scan met no malformed span. *)
Lemma handle_strict_return (items : list item) :
  forall start text,
    handle strict start items = Return text ->
    scalars items = text
    /\ concat (map item_bytes items) = concat (map encode_scalar text).
Proof.
  induction items as [|[c|r skipped] rest IH]; intros start text H;
    cbn [handle] in H.
  - injection H as <-. now split.
  - destruct (handle strict (start + scalar_width c) rest) as [t|x] eqn:E;
      [|discriminate H].
    injection H as <-. destruct (IH _ _ E) as [<- Hb].
    cbn [scalars map concat item_bytes]. now rewrite Hb.
  - discriminate H.
Qed.

Lemma handle_strict_scalars (cs : list Z) :
  forall start, handle strict start (map Scalar cs) = Return cs.
Proof.
  induction cs as [|c cs IH]; intro start; cbn [map handle];
    [reflexivity | now rewrite IH].
Qed.

Lemma entry_block_length filename content :
  (List.length (entry_block filename content)
   <= List.length filename + 160)%nat.
Proof.
  unfold entry_block, separator, newline.
  destruct (Nat.ltb_spec 100 (List.length content)) as [L|L];
    lits; rewrite ?length_app, ?length_firstn, ?repeat_length;
    cbn [List.length]; lia.
Qed.

(** X6.  However large a member is, what the scan writes for it when it is
    read is at most 160 characters more than its name: the name line, at
    most 100 characters of content under the longer of the two labels, and
    the separator. *)
Theorem entry_output_bounded z filename data w :
  zf_member z filename = Payload data ->
  exists text,
    scan_entry z filename w = (Return tt, wrote w text)
    /\ (List.length text <= List.length filename + 160)%nat.
Proof.
  intro Hm. exists (entry_report z filename).
  split; [apply scan_entry_report|].
  unfold entry_report. rewrite Hm. apply entry_block_length.
Qed.

Lemma entry_output_bounded_witness :
  zf_member Sample.book (lit "b.html") = Payload (repeat x78 150)
  /\ exists text,
       scan_entry Sample.book (lit "b.html") Sample.shelf
       = (Return tt, wrote Sample.shelf text)
       /\ (List.length text <= 166)%nat.
Proof.
  split; [reflexivity|].
  exact (entry_output_bounded Sample.book (lit "b.html") (repeat x78 150)
           Sample.shelf eq_refl).
Defined.

(** X7.  The decoded text has at most as many characters as the member has
    bytes; so a member of at most 100 bytes is never cut: its whole decoded
    text is printed under [Content: ]. *)
Theorem short_member_shown_whole z filename data w :
  zf_member z filename = Payload data ->
  exists content,
    bytes_decode data ignore = Return content
    /\ (List.length content <= List.length data)%nat
    /\ ((List.length data <= 100)%nat ->
        scan_entry z filename w
        = (Return tt,
           wrote w (lit "Filename: " ++ filename ++ newline
                    ++ lit "Content: " ++ content ++ newline
                    ++ repeat dash 20 ++ newline))).
Proof.
  intro Hm. exists (scalars (scan data)).
  pose proof (decoded_no_longer data) as Hlen.
  split; [apply bytes_decode_ignore|]. split; [exact Hlen|].
  intro Hshort. rewrite scan_entry_report.
  unfold entry_report, entry_block, separator. rewrite Hm.
  destruct (Nat.ltb_spec 100 (List.length (scalars (scan data)))); [lia|].
  now rewrite <- !app_assoc.
Qed.

Lemma short_member_shown_whole_witness :
  zf_member Sample.book (lit "latin") = Payload [x61; xff; x62]
  /\ (List.length [x61; xff; x62] <= 100)%nat
  /\ stdout (snd (scan_entry Sample.book (lit "latin") Sample.shelf))
     = lit "Filename: latin" ++ newline
       ++ lit "Content: ab" ++ newline
       ++ lit "--------------------" ++ newline.
Proof.
  split; [reflexivity|].
  assert (Hshort : (List.length [x61; xff; x62] <= 100)%nat) by (simpl; lia).
  split; [exact Hshort|].
  destruct (short_member_shown_whole Sample.book (lit "latin") [x61; xff; x62]
              Sample.shelf eq_refl) as (content & Hdec & _ & Hrun).
  vm_compute in Hdec. injection Hdec as <-.
  rewrite (Hrun Hshort). reflexivity.
Defined.

(** X8.  A member made of ASCII bytes only is decoded byte for byte: the
    text printed for it is its bytes read as characters. *)
Theorem ascii_member_verbatim z filename data w :
  zf_member z filename = Payload data ->
  Forall ascii_byte data ->
  bytes_decode data ignore = Return (map byte_val data)
  /\ scan_entry z filename w
     = (Return tt, wrote w (entry_block filename (map byte_val data))).
Proof.
  intros Hm Hascii.
  assert (E : scalars (scan data) = map byte_val data)
    by now rewrite (scan_ascii data Hascii), scalars_map_Scalar.
  split.
  - now rewrite bytes_decode_ignore, E.
  - rewrite scan_entry_report. unfold entry_report. now rewrite Hm, E.
Qed.

Lemma ascii_member_verbatim_witness :
  zf_member scraps (lit "plain") = Payload [x6f; x6b]
  /\ Forall ascii_byte [x6f; x6b]
  /\ stdout (snd (scan_entry scraps (lit "plain") attic))
     = lit "Filename: plain" ++ newline
       ++ lit "Content: ok" ++ newline
       ++ lit "--------------------" ++ newline.
Proof.
  split; [reflexivity|].
  assert (Hascii : Forall ascii_byte [x6f; x6b])
    by (repeat constructor; unfold ascii_byte; byte_vals; lia).
  split; [exact Hascii|].
  rewrite (proj2 (ascii_member_verbatim scraps (lit "plain") [x6f; x6b] attic
                    eq_refl Hascii)).
  reflexivity.
Defined.

(** X9.  A member in which no byte can start a sequence (continuation
    bytes, 0xC0, 0xC1, 0xF5 and above), the empty member among them, is
    printed with an empty content line, not reported as an error. *)
Theorem stray_bytes_show_nothing z filename data w :
  zf_member z filename = Payload data ->
  Forall stray_byte data ->
  scan_entry z filename w
  = (Return tt,
     wrote w (lit "Filename: " ++ filename ++ newline
              ++ lit "Content: " ++ newline
              ++ repeat dash 20 ++ newline)).
Proof.
  intros Hm Hstray. rewrite scan_entry_report.
  unfold entry_report, entry_block, separator.
  rewrite Hm, (scan_stray data Hstray). cbn [List.length Nat.ltb Nat.leb].
  now rewrite <- !app_assoc.
Qed.

Lemma stray_bytes_show_nothing_witness :
  zf_member scraps (lit "junk") = Payload [x80; xff; xc0]
  /\ Forall stray_byte [x80; xff; xc0]
  /\ stdout (snd (scan_entry scraps (lit "junk") attic))
     = lit "Filename: junk" ++ newline
       ++ lit "Content: " ++ newline
       ++ lit "--------------------" ++ newline.
Proof.
  split; [reflexivity|].
  assert (Hstray : Forall stray_byte [x80; xff; xc0])
    by (repeat constructor; unfold stray_byte; byte_vals; lia).
  split; [exact Hstray|].
  rewrite (stray_bytes_show_nothing scraps (lit "junk") [x80; xff; xc0] attic
             eq_refl Hstray).
  reflexivity.
Defined.

(** X10.  The text printed for a member is its strict UTF-8 decoding exactly
    when nothing was dropped: strict decoding returns the printed text if
    and only if the printed text, encoded again, is the member byte for
    byte; and whenever strict decoding returns at all, it returns the
    printed text. *)
Theorem lossless_iff_strict z filename data w :
  zf_member z filename = Payload data ->
  exists content,
    scan_entry z filename w = (Return tt, wrote w (entry_block filename content))
    /\ (bytes_decode data strict = Return content
        <-> concat (map encode_scalar content) = map byte_val data)
    /\ (forall text, bytes_decode data strict = Return text -> text = content).
Proof.
  intro Hm. exists (scalars (scan data)).
  destruct (scan_accounts data) as [Hbytes Hvalid].
  split; [|split].
  - rewrite scan_entry_report. unfold entry_report. now rewrite Hm.
  - split.
    + intro H. apply handle_strict_return in H. destruct H as [_ H].
      now rewrite <- H.
    + intro H. unfold bytes_decode.
      rewrite (scan_well_formed _ Hvalid data (eq_sym H)) at 1.
      apply handle_strict_scalars.
  - intros text H. apply handle_strict_return in H. now destruct H as [<- _].
Qed.

Lemma lossless_iff_strict_witness :
  zf_member Sample.book (lit "a.txt") = Payload [x68; x69]
  /\ exists content,
       content = [104; 105]
       /\ bytes_decode [x68; x69] strict = Return content.
Proof.
  split; [reflexivity|].
  destruct (lossless_iff_strict Sample.book (lit "a.txt") [x68; x69]
              Sample.shelf eq_refl) as (content & _ & _ & Hsame).
  exists content. split.
  - symmetry. apply Hsame. reflexivity.
  - rewrite <- (Hsame [104; 105] eq_refl). reflexivity.
Defined.

(** ** The script on a UTF-8 standard output *)

Import Edge.

Lemma encodable_app (a b : str) :
  encodable (a ++ b) = encodable a && encodable b.
Proof. apply forallb_app. Qed.

Lemma encodable_firstn (n : nat) (s : str) :
  encodable s = true -> encodable (firstn n s) = true.
Proof.
  revert n. induction s as [|c s IH]; intros [|n] H; try reflexivity.
  cbn in H |- *. apply andb_true_iff in H. destruct H as [Hc Hs].
  rewrite Hc. now apply IH.
Qed.

(** Scalar values are not surrogates: what the decoder returns, the stream
    encodes. *)
Lemma encodable_scalar_values (s : str) :
  Forall scalar_value s -> encodable s = true.
Proof.
  induction 1 as [|c s [_ Hc] _ IH]; [reflexivity|].
  change (encodable (c :: s)) with (negb (is_surrogate c) && encodable s).
  rewrite IH, andb_true_r. unfold is_surrogate.
  destruct (Z.leb_spec 0xD800 c), (Z.leb_spec c 0xDFFF); try reflexivity. lia.
Qed.

Lemma encodable_decoded (data : bytes) :
  encodable (scalars (scan data)) = true.
Proof. apply encodable_scalar_values, scan_accounts. Qed.

Lemma encode_from_encodable (s : str) :
  forall start, encodable s = true -> encode_from start s = None.
Proof.
  induction s as [|c s IH]; intros start H; [reflexivity|].
  cbn in H |- *. apply andb_true_iff in H. destruct H as [Hc Hs].
  apply negb_true_iff in Hc. rewrite Hc. now apply IH.
Qed.

(** A text without surrogates is printed. *)
Lemma print_on_utf8_wrote (s : str) (w : World) :
  encodable s = true ->
  print_on utf8_stdout s w = (Return tt, wrote w (s ++ newline)).
Proof.
  intro H. unfold print_on, utf8_stdout. now rewrite encode_from_encodable.
Qed.

Lemma encode_from_refused (s : str) :
  encodable s = false -> forall start, exists e, encode_from start s = Some e.
Proof.
  induction s as [|c s IH]; intros H start; [discriminate H|].
  cbn in H |- *. destruct (is_surrogate c); [eauto|]. now apply IH.
Qed.

(** A text with a surrogate is not: [print] raises and writes nothing. *)
Lemma print_on_utf8_refused (s : str) (w : World) :
  encodable s = false ->
  exists e, print_on utf8_stdout s w = (Raise e, w).
Proof.
  intro H. unfold print_on, utf8_stdout.
  destruct (encode_from_refused s H 0%nat) as [e ->]. now exists e.
Qed.

(** The side conditions of the prints: the text is made of literals, of
    text known to be encodable, and of decoded text. *)
Ltac enc :=
  rewrite ?encodable_app, ?andb_true_iff;
  repeat split;
  try reflexivity; try assumption;
  try apply encodable_decoded;
  try (apply encodable_firstn, encodable_decoded).

Lemma scan_entry_on_utf8_report z filename w :
  encodable filename = true ->
  member_encodable (zf_member z filename) = true ->
  scan_entry_on utf8_stdout z filename w
  = (Return tt, wrote w (entry_report z filename)).
Proof.
  intros Hname Hmem.
  unfold scan_entry_on, try_except, read_and_print_on, with_as, ZipFile_open,
    ZipExtFile_read, bind, lift, ret, raise, entry_report.
  destruct (zf_member z filename) as [e|e|data]; cbn [member_encodable] in Hmem.
  - cbn [dispatch isinstance]. rewrite print_on_utf8_wrote by enc.
    unfold entry_error. now rewrite <- !app_assoc.
  - cbn [dispatch isinstance]. rewrite print_on_utf8_wrote by enc.
    unfold entry_error. now rewrite <- !app_assoc.
  - rewrite bytes_decode_ignore.
    rewrite print_on_utf8_wrote by enc.
    unfold entry_block, len, slice_to.
    destruct (100 <? List.length (scalars (scan data)))%nat;
      rewrite print_on_utf8_wrote by enc;
      rewrite print_on_utf8_wrote by enc;
      rewrite !wrote_wrote, separator_line;
      do 2 f_equal; now rewrite <- !app_assoc.
Qed.

Lemma for_in_on_utf8_report z names :
  forallb (fun name => encodable name && member_encodable (zf_member z name))
          names = true ->
  forall w, for_in names (scan_entry_on utf8_stdout z) w
            = (Return tt, wrote w (entries_report z names)).
Proof.
  induction names as [|name rest IH]; intros Hok w.
  - cbn. now rewrite wrote_nil.
  - cbn [forallb] in Hok. apply andb_true_iff in Hok.
    destruct Hok as [Hname Hrest]. apply andb_true_iff in Hname.
    destruct Hname as [Hname Hmem].
    cbn [for_in]. unfold bind.
    rewrite scan_entry_on_utf8_report by assumption.
    rewrite (IH Hrest), wrote_wrote. reflexivity.
Qed.

(** On a UTF-8 standard output, for a path and library text without
    surrogates, the call runs as on a stream that takes every text. *)
Lemma explore_epub_on_utf8_report path w :
  encodable path = true ->
  library_text_encodable (fs w path) = true ->
  explore_epub_on utf8_stdout path w
  = (Return tt, wrote w (explore_report (fs w path) path)).
Proof.
  intros Hpath Hlib.
  unfold explore_epub_on, try_except, with_as, bind, zipfile_ZipFile,
    explore_report.
  destruct (fs w path) as [|seen msg| |z]; cbn [library_text_encodable] in Hlib.
  - cbn [dispatch isinstance exn_cls].
    rewrite print_on_utf8_wrote by enc. now rewrite <- !app_assoc.
  - cbn [dispatch isinstance exn_cls exn_str].
    rewrite print_on_utf8_wrote by enc. now rewrite <- !app_assoc.
  - cbn [dispatch isinstance exn_cls].
    rewrite print_on_utf8_wrote by enc. now rewrite <- !app_assoc.
  - unfold ZipFile_namelist. now rewrite for_in_on_utf8_report.
Qed.




(** C5, as the code has it.  When no file of the given name exists, so that
    opening it raises [FileNotFoundError], and the path has no lone
    surrogate, the whole output of the call on a UTF-8 standard output is
    the line [Error: File '<path>' not found.]; no entry is printed. *)
Theorem missing_file_output path w :
  fs w path = Absent ->
  encodable path = true ->
  explore_epub_on utf8_stdout path w
  = (Return tt,
     wrote w (lit "Error: File '" ++ path ++ lit "' not found." ++ newline)).
Proof.
  intros Hfs Hpath. rewrite explore_epub_on_utf8_report by (now rewrite ?Hfs).
  now rewrite Hfs.
Qed.

Lemma missing_file_output_witness :
  fs Sample.shelf (lit "lost.epub") = Absent
  /\ encodable (lit "lost.epub") = true
  /\ stdout (snd (explore_epub_on utf8_stdout (lit "lost.epub") Sample.shelf))
     = lit "Error: File 'lost.epub' not found." ++ newline.
Proof.
  split; [reflexivity|]. split; [reflexivity|].
  rewrite (missing_file_output (lit "lost.epub") Sample.shelf eq_refl eq_refl).
  reflexivity.
Defined.

(** C5, as the specification has it, fails, in two ways.  The path
    [notes.txt/x] does not lead to an existing file ([os.path.exists] is
    false of it), yet opening it raises [NotADirectoryError], not
    [FileNotFoundError], and the output is the [An unexpected error
    occurred] line.  And for the missing file [cafe ++ ".epub"], whose name
    has a lone surrogate, the output is empty: the [print] of the
    [not found] line raises. *)
Lemma missing_path_not_reported_missing :
  (node_exists (fs desk (lit "notes.txt/x")) = false
   /\ explore_epub_on utf8_stdout (lit "notes.txt/x") desk
      = (Return tt,
         wrote desk
           (lit "An unexpected error occurred: [Errno 20] Not a directory: 'notes.txt/x'"
            ++ newline))
   /\ stdout (snd (explore_epub_on utf8_stdout (lit "notes.txt/x") desk))
      <> lit "Error: File 'notes.txt/x' not found." ++ newline)
  /\ (node_exists (fs desk (cafe ++ lit ".epub")) = false
      /\ fs desk (cafe ++ lit ".epub") = Absent
      /\ stdout (snd (explore_epub_on utf8_stdout (cafe ++ lit ".epub") desk))
         = []).
Proof.
  split; [split; [reflexivity|split; [reflexivity|]] | repeat split].
  vm_compute. discriminate.
Qed.

(** C6, as the code has it.  When the path leads to a file in which zipfile
    finds no ZIP archive, so that opening it raises [BadZipFile], and the
    path has no lone surrogate, the whole output of the call on a UTF-8
    standard output is the line
    [Error: '<path>' is not a valid ZIP or EPUB file.]; no entry is
    printed. *)
Theorem not_zip_output path w :
  fs w path = NotZip ->
  encodable path = true ->
  explore_epub_on utf8_stdout path w
  = (Return tt,
     wrote w (lit "Error: '" ++ path
              ++ lit "' is not a valid ZIP or EPUB file." ++ newline)).
Proof.
  intros Hfs Hpath. rewrite explore_epub_on_utf8_report by (now rewrite ?Hfs).
  now rewrite Hfs.
Qed.

Lemma not_zip_output_witness :
  fs Sample.shelf (lit "notes.txt") = NotZip
  /\ encodable (lit "notes.txt") = true
  /\ stdout (snd (explore_epub_on utf8_stdout (lit "notes.txt") Sample.shelf))
     = lit "Error: 'notes.txt' is not a valid ZIP or EPUB file." ++ newline.
Proof.
  split; [reflexivity|]. split; [reflexivity|].
  rewrite (not_zip_output (lit "notes.txt") Sample.shelf eq_refl eq_refl).
  reflexivity.
Defined.

(** C6, as the specification has it, fails, in two ways.  The file
    [odd.zip] exists and is not a valid archive (its central directory
    names an entry in bytes that are not UTF-8), yet [ZipFile] raises the
    decoder's [UnicodeDecodeError], not [BadZipFile], and the output is the
    [An unexpected error occurred] line.  And for the text file
    [cafe ++ ".zip"], whose name has a lone surrogate, [ZipFile] raises
    [BadZipFile] and the output is empty: the [print] of the handler at
    line 33 raises, and the exception reaches the caller. *)
Lemma invalid_archive_not_reported_invalid :
  (node_exists (fs desk (lit "odd.zip")) = true
   /\ (forall z, fs desk (lit "odd.zip") <> Archive z)
   /\ explore_epub_on utf8_stdout (lit "odd.zip") desk
      = (Return tt,
         wrote desk
           (lit "An unexpected error occurred: 'utf-8' codec can't decode byte 0xff in position 0: invalid start byte"
            ++ newline)))
  /\ (fs desk (cafe ++ lit ".zip") = NotZip
      /\ explore_epub_on utf8_stdout (cafe ++ lit ".zip") desk
         = (Raise (MkExn OtherException
                     (lit "'utf-8' codec can't encode character '\udce9' in position 11: surrogates not allowed")),
            desk)).
Proof.
  split; [split; [reflexivity|split; [discriminate|reflexivity]] | split; reflexivity].
Qed.

(** X3.  On a UTF-8 standard output, for a path and library text without
    lone surrogates, the [not found] line is the output of a call if and
    only if opening the path raised [FileNotFoundError]: no archive,
    whatever its entries and the exceptions they raise, and no other
    failure to open produces it. *)
Theorem not_found_only_when_absent path w :
  encodable path = true ->
  library_text_encodable (fs w path) = true ->
  explore_epub_on utf8_stdout path w
  = (Return tt,
     wrote w (lit "Error: File '" ++ path ++ lit "' not found." ++ newline))
  <-> fs w path = Absent.
Proof.
  intros Hpath Hlib. rewrite explore_epub_on_utf8_report by assumption. split.
  - intro H. apply (not_found_only_when_absent_aux _ path).
    apply wrote_inj with (w := w). congruence.
  - now intros ->.
Qed.

Lemma not_found_only_when_absent_witness :
  encodable (lit "lost.epub") = true
  /\ library_text_encodable (fs Sample.shelf (lit "lost.epub")) = true
  /\ explore_epub_on utf8_stdout (lit "lost.epub") Sample.shelf
     = (Return tt,
        wrote Sample.shelf
          (lit "Error: File '" ++ lit "lost.epub" ++ lit "' not found."
           ++ newline))
  /\ fs Sample.shelf (lit "lost.epub") = Absent.
Proof.
  split; [reflexivity|]. split; [reflexivity|].
  assert (H : explore_epub_on utf8_stdout (lit "lost.epub") Sample.shelf
              = (Return tt,
                 wrote Sample.shelf
                   (lit "Error: File '" ++ lit "lost.epub"
                    ++ lit "' not found." ++ newline)))
    by reflexivity.
  split; [exact H|].
  exact (proj1 (not_found_only_when_absent (lit "lost.epub") Sample.shelf
                  eq_refl eq_refl) H).
Defined.

(** X4.  On a UTF-8 standard output, for a path and library text without
    lone surrogates, the [not a valid ZIP or EPUB file] line is the output
    of a call if and only if opening the path raised [BadZipFile]: a
    corrupt member of an archive that opens, even one that raises
    [BadZipFile], never produces it. *)
Theorem not_zip_only_when_not_zip path w :
  encodable path = true ->
  library_text_encodable (fs w path) = true ->
  explore_epub_on utf8_stdout path w
  = (Return tt,
     wrote w (lit "Error: '" ++ path
              ++ lit "' is not a valid ZIP or EPUB file." ++ newline))
  <-> fs w path = NotZip.
Proof.
  intros Hpath Hlib. rewrite explore_epub_on_utf8_report by assumption. split.
  - intro H. apply (not_zip_only_when_not_zip_aux _ path).
    apply wrote_inj with (w := w). congruence.
  - now intros ->.
Qed.

Lemma not_zip_only_when_not_zip_witness :
  encodable (lit "notes.txt") = true
  /\ library_text_encodable (fs Sample.shelf (lit "notes.txt")) = true
  /\ explore_epub_on utf8_stdout (lit "notes.txt") Sample.shelf
     = (Return tt,
        wrote Sample.shelf
          (lit "Error: '" ++ lit "notes.txt"
           ++ lit "' is not a valid ZIP or EPUB file." ++ newline))
  /\ fs Sample.shelf (lit "notes.txt") = NotZip.
Proof.
  split; [reflexivity|]. split; [reflexivity|].
  assert (H : explore_epub_on utf8_stdout (lit "notes.txt") Sample.shelf
              = (Return tt,
                 wrote Sample.shelf
                   (lit "Error: '" ++ lit "notes.txt"
                    ++ lit "' is not a valid ZIP or EPUB file." ++ newline)))
    by reflexivity.
  split; [exact H|].
  exact (proj1 (not_zip_only_when_not_zip (lit "notes.txt") Sample.shelf
                  eq_refl eq_refl) H).
Defined.

(** So the statements proved above for a stream that takes every text hold
    as they are on a UTF-8 standard output, for paths and library text
    without lone surrogates. *)
Lemma scan_entry_on_utf8_same z filename w :
  encodable filename = true ->
  member_encodable (zf_member z filename) = true ->
  scan_entry_on utf8_stdout z filename w = scan_entry z filename w.
Proof.
  intros Hname Hmem.
  now rewrite scan_entry_on_utf8_report, scan_entry_report.
Qed.

Lemma explore_epub_on_utf8_same path w :
  encodable path = true ->
  library_text_encodable (fs w path) = true ->
  explore_epub_on utf8_stdout path w = explore_epub path w.
Proof.
  intros Hpath Hlib.
  now rewrite explore_epub_on_utf8_report, explore_epub_report.
Qed.
